(** * distributions.py: probability distributions and the generic posterior

    A shallow embedding of [distributions.py] and the proofs of its
    specification.

    Numbers.  A real scalar is an IEEE 754 binary64 value ([float], the
    kernel's primitive floats) and an [ndarray] is a list of them.  The
    parameters ([mu], [sigma], [alpha], [beta], [a], [b]) are Python floats.
    Where an operand comes from numpy, the arithmetic is numpy's: it rounds
    to nearest and reports an invalid operation by a warning and a NaN or an
    infinity, never by an exception.  Between two Python floats the
    arithmetic is Python's: [+], [-] and [*] do the same, [/] raises on a
    zero divisor and [**] raises on overflow ([float_pow_2]).  The
    elementary and special functions ([np.log], the power function of the C
    library, [special.erf], [special.gammaln], [special.gammainc]) and the integrator
    [quad] are external collaborators: the development is parameterised by
    them (class [Numerics]) and every theorem holds for each provider.

    Python.  Exceptions are values of [exn]; a call returns a [result].  The
    generic posterior is an object with attributes kept in a heap, and its
    methods run in a state-and-exception monad. *)

From Stdlib Require Import Floats ZArith Lia.
From stdpp Require Import base option list gmap strings.

(** ** Exceptions and results *)

(** The exception classes of Python that the module raises or that the
    specification names. *)
Inductive exn : Type :=
  | TypeError (msg : string)
  | NameError (name : string)
  | AttributeError (attr : string)
  | AssertionError (msg : string)
  | ZeroDivisionError
  | OverflowError
  | IndexError
  | ValueError (msg : string)
  | NotImplementedError.

Inductive result (A : Type) : Type :=
  | Ok (a : A)
  | Raise (e : exn).
Arguments Ok {A} a.
Arguments Raise {A} e.

Definition result_bind {A B : Type} (r : result A) (k : A -> result B) : result B :=
  match r with
  | Ok a => k a
  | Raise e => Raise e
  end.

#[global] Instance result_ret : MRet result := @Ok.
#[global] Instance result_mbind : MBind result := fun A B k r => result_bind r k.

(** ** Numbers *)

(** What a numeric expression of the module evaluates to.  [np.inf] is a
    Python float, the result of a numpy function on a scalar is a
    [numpy.float64], and the literal [0] is a Python int. *)
Inductive number : Type :=
  | PyInt (z : Z)
  | PyFloat (f : float)
  | NpFloat (f : float)
  | NdArray (a : list float).

(** The sample value [x]: a single real or a one-dimensional [ndarray]. *)
Inductive sample : Type :=
  | Scalar (x : float)
  | Vector (a : list float).

(** A numpy function applied to a sample: elementwise on an array, and a
    [numpy.float64] on a scalar. *)
Definition ufunc (f : float -> float) (x : sample) : number :=
  match x with
  | Scalar x => NpFloat (f x)
  | Vector a => NdArray (map f a)
  end.

(** The literal [1e-6] and the constant [np.pi]. *)
Definition threshold : float := 0x1.0c6f7a0b5ed8dp-20.
Definition np_pi : float := 0x1.921fb54442d18p+1.

(** The external numeric collaborators.  [power] is the power function of
    the C library, which numpy's [**] applies elementwise and Python's [**]
    calls ([float_pow_2]).  [np_log_neg] is the one fact about them that the
    development uses: numpy's logarithm of a negative number is NaN (with a
    warning). *)
Class Numerics : Type := {
  np_log : float -> float;
  power : float -> float -> float;
  special_erf : float -> float;
  special_gammaln : float -> float;
  special_gammainc : float -> float -> float;
  quad : (float -> result float) -> float -> float -> result (float * float);
  np_log_neg : forall x : float, (x <? 0)%float = true -> np_log x = nan
}.

(** [x ** 2] for a Python float [x]: [float.__pow__] with the exponent
    [2.0].  A NaN gives itself, an infinity gives the positive infinity, a
    zero gives [0.0] and a one of either sign gives [1.0]; any other [x] goes
    to the power function of the C library with its absolute value, and a
    result that is infinite raises the overflow error. *)
Definition float_pow_2 {N : Numerics} (x : float) : result float :=
  if negb (x =? x)%float then Ok x
  else if (abs x =? infinity)%float then Ok infinity
  else if (x =? 0)%float then Ok 0%float
  else if (abs x =? 1)%float then Ok 1%float
  else
    let r := power (abs x) 2 in
    if (abs r =? infinity)%float then Raise OverflowError else Ok r.

(** ** Arrays *)

(** [np.ones(x.shape)] for a one-dimensional [x] of length [n]. *)
Definition np_ones (n : nat) : list float := replicate n 1%float.

(** [pp.find(condition)]: the indices at which the condition holds, in
    increasing order. *)
Fixpoint find_from (i : nat) (c : list bool) : list nat :=
  match c with
  | [] => []
  | b :: c' => (if b then [i] else []) ++ find_from (S i) c'
  end.

Definition find (c : list bool) : list nat := find_from 0 c.

(** [a[I]] for an index array [I]: an index out of range raises. *)
Fixpoint take_indices (a : list float) (I : list nat) : result (list float) :=
  match I with
  | [] => Ok []
  | i :: I' =>
      match a !! i with
      | Some v => vs ← take_indices a I'; Ok (v :: vs)
      | None => Raise IndexError
      end
  end.

(** [a[I] = vals] for an index array [I] and an array [vals]: the two must
    have the same length, and an index out of range raises. *)
Fixpoint put_indices (a : list float) (I : list nat) (vals : list float)
  : result (list float) :=
  match I, vals with
  | [], [] => Ok a
  | i :: I', v :: vals' =>
      if decide (i < length a) then put_indices (<[i := v]> a) I' vals'
      else Raise IndexError
  | _, _ => Raise (ValueError "shape mismatch")
  end.

(** [a[I] = v] for an index array [I] and a scalar [v]. *)
Fixpoint put_scalar (a : list float) (I : list nat) (v : float) : result (list float) :=
  match I with
  | [] => Ok a
  | i :: I' =>
      if decide (i < length a) then put_scalar (<[i := v]> a) I' v
      else Raise IndexError
  end.

(** [np.all([c1, c2], axis=0)] for two conditions over the same sample. *)
Inductive condition : Type :=
  | CScalar (b : bool)
  | CVector (bs : list bool).

Definition compare_sample (cmp : float -> bool) (x : sample) : condition :=
  match x with
  | Scalar x => CScalar (cmp x)
  | Vector a => CVector (map cmp a)
  end.

Definition np_all_axis0 (c1 c2 : condition) : result condition :=
  match c1, c2 with
  | CScalar b1, CScalar b2 => Ok (CScalar (b1 && b2))
  | CVector bs1, CVector bs2 =>
      if decide (length bs1 = length bs2) then Ok (CVector (zip_with andb bs1 bs2))
      else Raise (ValueError "inhomogeneous shape")
  | _, _ => Raise (ValueError "inhomogeneous shape")
  end.

(** A boolean in arithmetic: [True] is [1.0] and [False] is [0.0]. *)
Definition float_of_bool (b : bool) : float := if b then 1%float else 0%float.

(** [c / d] for a condition [c] and a scalar [d]. *)
Definition condition_truediv (c : condition) (d : float) : number :=
  match c with
  | CScalar b => NpFloat (float_of_bool b / d)
  | CVector bs => NdArray (map (fun b => (float_of_bool b / d)%float) bs)
  end.

(** ** Python values *)

(** The values that the generic posterior handles: [None], a Python float,
    a function of one real argument, a reference to an instance of
    [generic_posterior], and a module-level object known by its name. *)
Inductive value : Type :=
  | VNone
  | VFloat (f : float)
  | VFun (f : float -> result float)
  | VRef (l : nat)
  | VGlobal (name : string).

(** ** The distribution families *)

(** [assert False, msg] raises the assertion error: assertions are enabled,
    as they are unless the interpreter is started with [-O]. *)

Module gamma.
Section gamma.
Context {N : Numerics}.

Definition logpdf (x : sample) (alpha beta : float) : result number :=
  if (0 <? beta)%float then
    Ok (ufunc (fun x => alpha * np_log beta - special_gammaln alpha
                        + (alpha - 1) * np_log x - beta * x)%float x)
  else Raise (AssertionError "Beta is zero").

Definition cdf (x : sample) (alpha beta : float) : result number :=
  Ok (ufunc (fun x => special_gammainc alpha (x * beta)%float) x).
End gamma.
End gamma.

Module exponential.
Section exponential.
Context {N : Numerics}.

Definition logpdf (x : sample) (beta : float) : result number :=
  if (0 <? beta)%float then
    Ok (ufunc (fun x => np_log beta - beta * x)%float x)
  else Raise (AssertionError "Beta is zero").
End exponential.
End exponential.

Module uniform.
Definition pdf (x : sample) (a b : float) : result number :=
  c ← np_all_axis0 (compare_sample (fun x => a <=? x)%float x)
                   (compare_sample (fun x => x <=? b)%float x);
  Ok (condition_truediv c (b - a)%float).
End uniform.

Module lognormal.
Section lognormal.
Context {N : Numerics}.

(** The value used for [x] at or below the threshold. *)
Definition small (mu sigma : float) : float :=
  np_log (0.5 + 0.5 * special_erf ((np_log threshold - mu) / (sqrt 2 * sigma)))%float.

(** The density above the threshold, from [log_x = np.log(x)] and from
    [sigma2], the value of [sigma ** 2]. *)
Definition precise (mu sigma sigma2 : float) (log_x : float) : float :=
  (- log_x - 0.5 * np_log (2 * np_pi) - np_log sigma
   - 0.5 * (power (log_x - mu) 2) / sigma2)%float.

Definition logpdf (x : sample) (mu sigma : float) : result number :=
  match x with
  | Vector x =>
      if (0 <? sigma)%float then
        let small := small mu sigma in
        let I := find (map (fun x => threshold <? x)%float x) in
        x_I ← take_indices x I;
        let log_x := map np_log x_I in
        let lp := map (fun one => small * one)%float (np_ones (length x)) in
        sigma2 ← float_pow_2 sigma;
        lp ← put_indices lp I (map (precise mu sigma sigma2) log_x);
        Ok (NdArray lp)
      else
        let I := find (map (fun x => x =? mu)%float x) in
        let lp := map (fun one => - infinity * one)%float (np_ones (length x)) in
        lp ← put_scalar lp I 0%float;
        Ok (NdArray lp)
  | Scalar x =>
      if (0 <? sigma)%float then
        if (threshold <? x)%float then
          let log_x := np_log x in
          sigma2 ← float_pow_2 sigma;
          Ok (NpFloat (precise mu sigma sigma2 log_x))
        else
          Ok (NpFloat (small mu sigma))
      else
        if (x =? mu)%float then Ok (PyInt 0)
        else Ok (PyFloat (- infinity)%float)
  end.
End lognormal.
End lognormal.

Module logitnormal.
Section logitnormal.
Context {N : Numerics}.

Definition logpdf (x : sample) (mu sigma : float) : result number :=
  sigma2 ← float_pow_2 sigma;
  Ok (ufunc (fun x => - np_log x - np_log (1 - x)
                      - 0.5 * np_log (2 * np_pi * sigma2)
                      - 0.5 * power ((np_log x - np_log (1 - x) - mu) / sigma) 2)%float x).
End logitnormal.

(** The body of [rvs] is [pass]: the call returns [None]. *)
Definition rvs (mu sigma : float) : result value := Ok VNone.
End logitnormal.

(** ** Objects and the heap *)

(** An instance is its attribute dictionary; the heap maps references to
    instances. *)
Abbreviation instance := (gmap string value).
Abbreviation heap := (gmap nat (gmap string value)).

(** Computations that read and write the heap and may raise.  An exception
    leaves the heap as it was when it was raised. *)
Definition M (A : Type) : Type := heap -> result A * heap.

Definition M_ret {A : Type} (a : A) : M A := fun h => (Ok a, h).

Definition M_bind {A B : Type} (c : M A) (k : A -> M B) : M B :=
  fun h =>
    match c h with
    | (Ok a, h') => k a h'
    | (Raise e, h') => (Raise e, h')
    end.

Definition M_raise {A : Type} (e : exn) : M A := fun h => (Raise e, h).

Definition M_lift {A : Type} (r : result A) : M A := fun h => (r, h).

#[global] Instance M_mret : MRet M := @M_ret.
#[global] Instance M_mbind : MBind M := fun A B k c => M_bind c k.

(** The names bound at module level by the imports and the class
    statements. *)
Definition module_globals : gmap string value :=
  list_to_map
    ((fun name => (name, VGlobal name)) <$>
     ["collections"; "np"; "pp"; "special"; "quad"; "generic_posterior";
      "gamma"; "normal"; "exponential"; "uniform"; "lognormal"; "logitnormal"]).

(** A name is looked up among the locals, then among the globals. *)
Definition load_name (locals : gmap string value) (name : string) : M value :=
  match locals !! name with
  | Some v => M_ret v
  | None =>
      match module_globals !! name with
      | Some v => M_ret v
      | None => M_raise (NameError name)
      end
  end.

(** [obj.attr] *)
Definition getattr (obj : value) (attr : string) : M value :=
  fun h =>
    match obj with
    | VRef l =>
        match h !! l ≫= (.!! attr) with
        | Some v => (Ok v, h)
        | None => (Raise (AttributeError attr), h)
        end
    | _ => (Raise (AttributeError attr), h)
    end.

(** [obj.attr = v] *)
Definition setattr (obj : value) (attr : string) (v : value) : M unit :=
  fun h =>
    match obj with
    | VRef l =>
        match h !! l with
        | Some attrs => (Ok (), <[l := <[attr := v]> attrs]> h)
        | None => (Raise (AttributeError attr), h)
        end
    | _ => (Raise (AttributeError attr), h)
    end.

(** [a / b]: defined on two floats, where a zero divisor raises; a function,
    [None], an instance or a module has no division. *)
Definition py_truediv (a b : value) : result value :=
  match a, b with
  | VFloat x, VFloat y =>
      if (y =? 0)%float then Raise ZeroDivisionError else Ok (VFloat (x / y))
  | _, _ => Raise (TypeError "unsupported operand type(s) for /")
  end.

(** A call binds the positional arguments to the parameters, one to one, and
    runs the body with these locals. *)
Definition call (params : list string) (body : gmap string value -> M value)
    (args : list value) : M value :=
  if decide (length args = length params) then body (list_to_map (zip params args))
  else M_raise (TypeError "wrong number of positional arguments").

(** ** The generic posterior *)

Module generic_posterior.
Section generic_posterior.
Context {N : Numerics}.

(** [quad(f, a, b)] on a value: the integrand must be callable. *)
Definition call_quad (f : value) (a b : float) : M (float * float) :=
  match f with
  | VFun f => M_lift (quad f a b)
  | _ => M_raise (TypeError "integrand is not callable")
  end.

(** [def __init__(proportional_posterior)]: one parameter, and no [self]. *)
Definition __init___params : list string := ["proportional_posterior"].

Definition __init__ (locals : gmap string value) : M value :=
  (* self.normalization, _ = quad(self.proportional_posterior, -np.inf, np.inf) *)
  _ ← load_name locals "quad";
  self ← load_name locals "self";
  f ← getattr self "proportional_posterior";
  _ ← load_name locals "np";
  _ ← load_name locals "np";
  r ← call_quad f (- infinity)%float infinity;
  self ← load_name locals "self";
  setattr self "normalization" (VFloat r.1);;
  (* self.proportional_posterior = proportional_posterior *)
  v ← load_name locals "proportional_posterior";
  self ← load_name locals "self";
  setattr self "proportional_posterior" v;;
  mret VNone.

(** The call [generic_posterior(args)]: a new instance without attributes is
    created and passed to [__init__] before the arguments. *)
Definition instantiate (args : list value) : M value :=
  fun h =>
    let l := fresh (dom h) in
    match call __init___params __init__ (VRef l :: args) (<[l := ∅]> h) with
    | (Ok _, h') => (Ok (VRef l), h')
    | (Raise e, h') => (Raise e, h')
    end.

(** [def pdf(self, x)] *)
Definition pdf (self x : value) : M value :=
  f ← getattr self "proportional_posterior";
  n ← getattr self "normalization";
  M_lift (py_truediv f n).
End generic_posterior.
End generic_posterior.

(** ** The remaining operations *)

(** [np.exp], the collaborator of the [pdf] operations. *)
Class NumpyExp : Type := { np_exp : float -> float }.

(** The binary64 value of a Python int. *)
Definition float_of_Z (z : Z) : float := SF2Prim (binary_normalize prec emax z 0 false).

(** [np.exp(r)] for the result [r] of a [logpdf]. *)
Definition exp_number {E : NumpyExp} (r : number) : number :=
  match r with
  | PyInt z => NpFloat (np_exp (float_of_Z z))
  | PyFloat f => NpFloat (np_exp f)
  | NpFloat f => NpFloat (np_exp f)
  | NdArray a => NdArray (map np_exp a)
  end.

(** [gamma.pdf] *)
Definition gamma_pdf {N : Numerics} {E : NumpyExp} (x : sample) (alpha beta : float)
  : result number :=
  r ← gamma.logpdf x alpha beta; Ok (exp_number r).

(** [exponential.pdf] *)
Definition exponential_pdf {N : Numerics} {E : NumpyExp} (x : sample) (beta : float)
  : result number :=
  r ← exponential.logpdf x beta; Ok (exp_number r).

(** The truth value of a condition, as [if] and a chained comparison take
    it: that of the boolean, or of the only element of an array; the array
    without elements counts as false, and an array of two or more elements
    has no truth value. *)
Definition truth (c : condition) : result bool :=
  match c with
  | CScalar b => Ok b
  | CVector [] => Ok false
  | CVector [b] => Ok b
  | CVector _ =>
      Raise (ValueError "The truth value of an array with more than one element is ambiguous")
  end.

(** [uniform.logpdf]: the test [a <= x <= b] is [a <= x and x <= b], and the
    second comparison is made only when the first one is true. *)
Definition uniform_logpdf {N : Numerics} (x : sample) (a b : float) : result number :=
  c1 ← truth (compare_sample (fun x => a <=? x)%float x);
  c2 ← (if c1 : bool then truth (compare_sample (fun x => x <=? b)%float x)
        else Ok false);
  if c2 : bool then Ok (NpFloat (- np_log (b - a))%float)
  else Ok (PyFloat (- infinity)%float).

(** The method [self.pdf] as the integrand that [quad] calls with a float:
    it must return a float. *)
Definition pdf_integrand (self : value) (h : heap) (t : float) : result float :=
  match generic_posterior.pdf self (VFloat t) h with
  | (Ok (VFloat v), _) => Ok v
  | (Ok _, _) => Raise (TypeError "a float is required")
  | (Raise e, _) => Raise e
  end.

(** [quad(self.pdf, -np.inf, i)[0]] *)
Definition cdf_at {N : Numerics} (self : value) (i : float) : M float :=
  fun h =>
    match quad (pdf_integrand self h) neg_infinity i with
    | Ok r => (Ok r.1, h)
    | Raise e => (Raise e, h)
    end.

(** [[quad(self.pdf, -np.inf, i)[0] for i in x]] *)
Fixpoint cdf_each {N : Numerics} (self : value) (x : list float) : M (list float) :=
  match x with
  | [] => mret []
  | i :: x' => v ← cdf_at self i; vs ← cdf_each self x'; mret (v :: vs)
  end.

(** [generic_posterior.cdf]: an array is iterable and a float is not.  The
    names that the body loads ([isinstance], [collections], [np], [quad])
    are bound, and [collections.Iterable] is there, as it was until
    Python 3.9. *)
Definition generic_posterior_cdf {N : Numerics} (self : value) (x : sample) : M number :=
  match x with
  | Vector x => vs ← cdf_each self x; mret (NdArray vs)
  | Scalar x => v ← cdf_at self x; mret (PyFloat v)
  end.

(** ** A stand-in for the collaborators *)

(** A deterministic stand-in for the special functions and the integrator,
    as a test suite would inject one.  It is crude and serves only to run the
    definitions on concrete inputs: the theorems are stated for every
    provider, and none depends on what this one computes. *)
Definition stand_in_log (x : float) : float :=
  if (x <? 0)%float then nan
  else if (x =? 0)%float then neg_infinity
  else (x - 1)%float.

Lemma stand_in_log_neg (x : float) : (x <? 0)%float = true -> stand_in_log x = nan.
Proof. unfold stand_in_log. by intros ->. Qed.

Definition stand_in : Numerics := {|
  np_log := stand_in_log;
  power := fun x y => if (y =? 2)%float then (x * x)%float else nan;
  special_erf := fun x => (x / (1 + abs x))%float;
  special_gammaln := fun x => ((x - 1) * stand_in_log x)%float;
  special_gammainc := fun a x => (x / (1 + x))%float;
  quad := fun f a b => v ← f 0%float; Ok (((b - a) * v)%float, 0%float);
  np_log_neg := stand_in_log_neg
|}.

(** A stand-in for [np.exp]: the first two terms of its series. *)
Definition stand_in_exp : NumpyExp := {| np_exp := fun x => (1 + x)%float |}.

(** ** The vocabulary of the claims *)

Section vocabulary.
Context {N : Numerics}.

(** What the scalar path computes for one [x] when [sigma > 0] and
    [sigma ** 2] is [sigma2]. *)
Definition lognormal_pointwise (mu sigma sigma2 x : float) : float :=
  if (threshold <? x)%float then lognormal.precise mu sigma sigma2 (np_log x)
  else lognormal.small mu sigma.

(** The formula of [logitnormal.logpdf] at one [x], where [sigma ** 2] is
    [sigma2]. *)
Definition logitnormal_pointwise (mu sigma sigma2 x : float) : float :=
  (- np_log x - np_log (1 - x)
   - 0.5 * np_log (2 * np_pi * sigma2)
   - 0.5 * power ((np_log x - np_log (1 - x) - mu) / sigma) 2)%float.

End vocabulary.

(** A normalization that the specification calls invalid: zero, negative,
    NaN or infinite. *)
Definition invalid_normalization (v : float) : bool :=
  negb (0 <? v)%float || (v =? infinity)%float.

(** The errors by which a check of the normalization could report (the
    module defines no exception class of its own): a value error or a
    division by zero. *)
Definition normalization_error (e : exn) : Prop :=
  match e with
  | ValueError _ | ZeroDivisionError => True
  | _ => False
  end.

(** * Proofs *)

(** ** Facts on binary64 arithmetic *)

(** The facts that the claims need, from the specification of the primitive
    floats ([SpecFloat]): multiplying by one changes nothing, and the
    difference of two ordered numbers has the sign of the ordering and is not
    zero (a difference never underflows). *)

Section float_facts.
Local Open Scope Z_scope.

Lemma Prim2SF_one : Prim2SF 1 = S754_finite false 4503599627370496 (-52).
Proof. reflexivity. Qed.

Lemma Prim2SF_zero : Prim2SF 0 = S754_zero false.
Proof. reflexivity. Qed.

Lemma bounded_inv m e :
  bounded prec emax m e = true ->
  fexp prec emax (Z.pos (digits2_pos m) + e) = e /\ e <= emax - prec.
Proof.
  unfold bounded, canonical_mantissa. intros Hb.
  apply andb_prop in Hb as [H1 H2].
  apply Z.eqb_eq in H1. apply Z.leb_le in H2. done.
Qed.

Lemma digits2_pos_bounds m :
  2 ^ (Z.pos (digits2_pos m) - 1) <= Z.pos m < 2 ^ Z.pos (digits2_pos m).
Proof.
  induction m as [m IH|m IH|]; simpl digits2_pos.
  - rewrite Pos2Z.inj_succ, Z.pow_succ_r by lia.
    replace (Z.succ (Z.pos (digits2_pos m)) - 1) with (Z.succ (Z.pos (digits2_pos m) - 1)) by lia.
    rewrite Z.pow_succ_r by lia. lia.
  - rewrite Pos2Z.inj_succ, Z.pow_succ_r by lia.
    replace (Z.succ (Z.pos (digits2_pos m)) - 1) with (Z.succ (Z.pos (digits2_pos m) - 1)) by lia.
    rewrite Z.pow_succ_r by lia. lia.
  - simpl. lia.
Qed.

Lemma Zpos_iter_xO m (n : positive) :
  Z.pos (Pos.iter xO m n) = Z.pos m * 2 ^ Z.pos n.
Proof.
  induction n as [|n IH] using Pos.peano_ind.
  - simpl. lia.
  - rewrite Pos.iter_succ, Pos2Z.inj_succ, Z.pow_succ_r by lia.
    rewrite Pos2Z.inj_xO, IH. lia.
Qed.

Lemma digits2_pos_iter_xO m (n : positive) :
  digits2_pos (Pos.iter xO m n) = (digits2_pos m + n)%positive.
Proof.
  induction n as [|n IH] using Pos.peano_ind.
  - simpl. lia.
  - rewrite Pos.iter_succ. simpl. rewrite IH. lia.
Qed.

Lemma iter_pos_eq {A : Type} (f : A -> A) (n : positive) (x : A) :
  SpecFloat.iter_pos f n x = Pos.iter f x n.
Proof.
  revert x. induction n as [n IH|n IH|]; intros x; simpl.
  - rewrite !IH, <- !Pos.iter_swap. done.
  - rewrite !IH. done.
  - done.
Qed.

(** Shifting right the zeros that a shift to the left put in is exact. *)
Lemma iter_shr_1_iter_xO m (n : positive) :
  Pos.iter shr_1 (Build_shr_record (Z.pos (Pos.iter xO m n)) false false) n
  = Build_shr_record (Z.pos m) false false.
Proof.
  induction n as [|n IH] using Pos.peano_ind.
  - reflexivity.
  - rewrite Pos.iter_succ_r, Pos.iter_succ. simpl. apply IH.
Qed.

(** The mantissa after [n] shifts to the right is the quotient by [2 ^ n]. *)
Lemma shr_m_shr_1 mrs : 0 <= shr_m mrs -> shr_m (shr_1 mrs) = shr_m mrs / 2.
Proof.
  destruct mrs as [[|[p|p|]|p] r s]; cbn [shr_1 shr_m]; intros Hm;
    try reflexivity; try lia.
  - apply Z.div_unique with 1; lia.
  - apply Z.div_unique with 0; lia.
Qed.

Lemma shr_m_iter_shr_1 mrs (n : positive) :
  0 <= shr_m mrs -> shr_m (Pos.iter shr_1 mrs n) = shr_m mrs / 2 ^ Z.pos n.
Proof.
  intros Hm. induction n as [|n IH] using Pos.peano_ind.
  - simpl. rewrite shr_m_shr_1 by done. done.
  - rewrite Pos.iter_succ, shr_m_shr_1.
    + rewrite IH, Pos2Z.inj_succ, Z.pow_succ_r by lia.
      rewrite Z.div_div by lia. f_equal. lia.
    + rewrite IH. apply Z.div_pos; lia.
Qed.

Lemma shr_m_shr_record_of_loc m l : shr_m (shr_record_of_loc m l) = m.
Proof. by destruct l as [|[]]. Qed.

(** A positive mantissa whose exponent is at least [emin] stays positive
    when it is shifted to its canonical exponent. *)
Lemma shr_fexp_pos m e l :
  SpecFloat.emin prec emax <= e ->
  0 < shr_m (shr_fexp prec emax (Z.pos m) e l).1
  /\ SpecFloat.emin prec emax <= (shr_fexp prec emax (Z.pos m) e l).2.
Proof.
  intros He. unfold shr_fexp, shr. simpl Zdigits2.
  destruct (fexp prec emax (Z.pos (digits2_pos m) + e) - e) as [|n|n] eqn:Hn;
    cbn [fst snd].
  1, 3: rewrite shr_m_shr_record_of_loc; lia.
  rewrite iter_pos_eq, shr_m_iter_shr_1 by (rewrite shr_m_shr_record_of_loc; lia).
  rewrite shr_m_shr_record_of_loc.
  unfold fexp in Hn.
  assert (Z.pos n = Z.pos (digits2_pos m) - prec) as Hn' by lia.
  split; [|lia].
  apply Z.div_str_pos. split; [lia|].
  etrans; [|apply digits2_pos_bounds].
  apply Z.pow_le_mono_r; [lia|]. rewrite Hn'. unfold prec. lia.
Qed.

Lemma round_nearest_even_ge m l : m <= round_nearest_even m l.
Proof. destruct l as [|[]]; simpl; try lia. destruct (Z.even m); lia. Qed.

(** Rounding a positive mantissa whose exponent is at least [emin] never
    gives a zero (nor a NaN): the result keeps the sign. *)
Lemma binary_round_aux_sign s m e l :
  SpecFloat.emin prec emax <= e ->
  (exists m' e', binary_round_aux prec emax s (Z.pos m) e l = S754_finite s m' e')
  \/ binary_round_aux prec emax s (Z.pos m) e l = S754_infinity s.
Proof.
  intros He. unfold binary_round_aux.
  destruct (shr_fexp_pos m e l He) as [Hm1 He1].
  destruct (shr_fexp prec emax (Z.pos m) e l) as [mrs1 e1]; simpl in Hm1, He1.
  pose proof (round_nearest_even_ge (shr_m mrs1) (loc_of_shr_record mrs1)) as Hr.
  destruct (round_nearest_even (shr_m mrs1) (loc_of_shr_record mrs1)) as [|m2|m2]; try lia.
  destruct (shr_fexp_pos m2 e1 loc_Exact He1) as [Hm3 He3].
  destruct (shr_fexp prec emax (Z.pos m2) e1 loc_Exact) as [mrs3 e3]; simpl in Hm3, He3.
  destruct (shr_m mrs3) as [|m3|m3]; try lia.
  destruct (e3 <=? emax - prec); eauto.
Qed.


(** *** Multiplication by one *)

Lemma binary_round_aux_shifted s m e :
  bounded prec emax m e = true ->
  binary_round_aux prec emax s (Z.pos (m * 4503599627370496)) (e + -52) loc_Exact
  = S754_finite s m e.
Proof.
  intros [Hc He]%bounded_inv.
  assert (m * 4503599627370496 = Pos.iter xO m 52)%positive as ->.
  { rewrite Pos.mul_comm. reflexivity. }
  unfold binary_round_aux, shr_fexp. cbn [Zdigits2 shr_record_of_loc].
  rewrite digits2_pos_iter_xO, Pos2Z.inj_add.
  replace (Z.pos (digits2_pos m) + 52 + (e + -52)) with (Z.pos (digits2_pos m) + e) by lia.
  rewrite Hc. replace (e - (e + -52)) with 52 by lia.
  unfold shr at 1. rewrite iter_pos_eq, iter_shr_1_iter_xO.
  cbn [shr_m loc_of_shr_record round_nearest_even Zdigits2 shr_record_of_loc].
  replace (e + -52 + 52) with e by lia.
  rewrite Hc, Z.sub_diag. cbn [shr shr_m].
  apply Z.leb_le in He. rewrite He. done.
Qed.

Lemma SF64mul_one x :
  valid_binary x = true ->
  SF64mul x (S754_finite false 4503599627370496 (-52)) = x.
Proof.
  destruct x as [s|s| |s m e]; intros Hv; cbn [SF64mul SFmul].
  - by rewrite xorb_false_r.
  - by rewrite xorb_false_r.
  - done.
  - rewrite xorb_false_r. by apply binary_round_aux_shifted.
Qed.

Lemma float_mul_one (x : float) : (x * 1)%float = x.
Proof.
  apply Prim2SF_inj. rewrite mul_spec, Prim2SF_one.
  apply SF64mul_one, Prim2SF_valid.
Qed.

(** *** The sign of a difference *)

Definition SFpositive (x : spec_float) : Prop :=
  (exists m e, x = S754_finite false m e) \/ x = S754_infinity false.

Definition SFnegative (x : spec_float) : Prop :=
  (exists m e, x = S754_finite true m e) \/ x = S754_infinity true.

Lemma shl_align_fst m e ez :
  ez <= e -> Z.pos (shl_align m e ez).1 = Z.pos m * 2 ^ (e - ez).
Proof.
  intros Hle. unfold shl_align.
  destruct (ez - e) as [|d|d] eqn:Hd; cbn [fst]; try lia.
  - replace (e - ez) with 0 by lia. lia.
  - rewrite Zpos_iter_xO. f_equal. f_equal. lia.
Qed.

Lemma emin_le_of_bounded m e : bounded prec emax m e = true -> SpecFloat.emin prec emax <= e.
Proof. intros [Hc _]%bounded_inv. unfold fexp in Hc. lia. Qed.

Lemma binary_round_sign s m e :
  SpecFloat.emin prec emax <= e ->
  (exists m' e', binary_round prec emax s m e = S754_finite s m' e')
  \/ binary_round prec emax s m e = S754_infinity s.
Proof.
  intros He. unfold binary_round.
  destruct (shl_align m e (fexp prec emax (Z.pos (digits2_pos m) + e))) as [mz ez] eqn:Hs.
  apply binary_round_aux_sign.
  unfold shl_align in Hs.
  destruct (fexp prec emax (Z.pos (digits2_pos m) + e) - e) eqn:Hd;
    injection Hs as <- <-; try done.
  unfold fexp. lia.
Qed.

(** The ordering of two finite numbers of the same sign, on their
    mantissas aligned to the smaller exponent. *)
Lemma aligned_lt m1 e1 m2 e2 :
  bounded prec emax m1 e1 = true -> bounded prec emax m2 e2 = true ->
  e1 < e2 \/ (e1 = e2 /\ (m1 < m2)%positive) ->
  Z.pos m1 * 2 ^ (e1 - Z.min e2 e1) < Z.pos m2 * 2 ^ (e2 - Z.min e2 e1).
Proof.
  intros [Hc1 _]%bounded_inv [Hc2 _]%bounded_inv [Hlt|[-> Hlt]].
  - rewrite Z.min_r by lia. rewrite Z.sub_diag, Z.mul_1_r.
    unfold fexp in Hc1, Hc2.
    assert (Z.pos (digits2_pos m1) <= prec) by lia.
    assert (Z.pos (digits2_pos m2) = prec) as Hd2 by lia.
    pose proof (digits2_pos_bounds m1) as [_ Hm1].
    pose proof (digits2_pos_bounds m2) as [Hm2 _]. rewrite Hd2 in Hm2.
    assert (2 ^ Z.pos (digits2_pos m1) <= 2 ^ prec) by (apply Z.pow_le_mono_r; lia).
    assert (2 ^ 1 <= 2 ^ (e2 - e1)) as Hp by (apply Z.pow_le_mono_r; lia).
    assert (2 ^ prec = 2 ^ (prec - 1) * 2 ^ 1) as Hpp by (by rewrite <- Z.pow_add_r).
    assert (0 < 2 ^ (prec - 1)) by (apply Z.pow_pos_nonneg; done).
    nia.
  - rewrite Z.min_id, Z.sub_diag. lia.
Qed.

Lemma SF64sub_sign x y :
  valid_binary x = true -> valid_binary y = true ->
  SFcompare x y = Some Lt ->
  SFpositive (SF64sub y x) /\ SFnegative (SF64sub x y).
Proof.
  unfold SFpositive, SFnegative.
  destruct x as [sx|sx| |sx mx ex], y as [sy|sy| |sy my ey];
    cbn [SFcompare SF64sub SFsub valid_binary negb]; intros Hx Hy Hc;
    try discriminate;
    try (destruct sx; try discriminate); try (destruct sy; try discriminate);
    try (split; cbn [negb]; eauto; fail).
  all: cbn [cond_Zopp].
  all: pose proof (emin_le_of_bounded _ _ Hx); pose proof (emin_le_of_bounded _ _ Hy).
  all: rewrite !shl_align_fst by lia.
  all: rewrite (Z.min_comm ex ey).
  - (* both negative: the larger mantissa is the smaller number *)
    assert (ey < ex \/ (ey = ex /\ (my < mx)%positive)) as Hlt.
    { destruct (Z.compare_spec ex ey); try discriminate; [right|left; done].
      split; [done|]. change (Pos.compare_cont Eq mx my) with (mx ?= my)%positive in Hc.
      destruct (Pos.compare_spec mx my); simplify_eq/=; lia. }
    pose proof (aligned_lt _ _ _ _ Hy Hx Hlt) as Hal. rewrite (Z.min_comm ex ey) in Hal.
    split.
    + destruct (- (Z.pos my * 2 ^ (ey - Z.min ey ex)) - - (Z.pos mx * 2 ^ (ex - Z.min ey ex))) eqn:Hd;
        try lia. cbn [binary_normalize]. apply binary_round_sign. lia.
    + destruct (- (Z.pos mx * 2 ^ (ex - Z.min ey ex)) - - (Z.pos my * 2 ^ (ey - Z.min ey ex))) eqn:Hd;
        try lia. cbn [binary_normalize]. apply binary_round_sign. lia.
  - (* x negative, y positive *)
    assert (0 < Z.pos mx * 2 ^ (ex - Z.min ey ex)) by (apply Z.mul_pos_pos; [done|apply Z.pow_pos_nonneg; lia]).
    assert (0 < Z.pos my * 2 ^ (ey - Z.min ey ex)) by (apply Z.mul_pos_pos; [done|apply Z.pow_pos_nonneg; lia]).
    split.
    + destruct (Z.pos my * 2 ^ (ey - Z.min ey ex) - - (Z.pos mx * 2 ^ (ex - Z.min ey ex))) eqn:Hd;
        try lia. cbn [binary_normalize]. apply binary_round_sign. lia.
    + destruct (- (Z.pos mx * 2 ^ (ex - Z.min ey ex)) - Z.pos my * 2 ^ (ey - Z.min ey ex)) eqn:Hd;
        try lia. cbn [binary_normalize]. apply binary_round_sign. lia.
  - (* both positive *)
    assert (ex < ey \/ (ex = ey /\ (mx < my)%positive)) as Hlt.
    { destruct (Z.compare_spec ex ey); try discriminate; [right|left; done].
      split; [done|]. change (Pos.compare_cont Eq mx my) with (mx ?= my)%positive in Hc.
      destruct (Pos.compare_spec mx my); simplify_eq/=; lia. }
    pose proof (aligned_lt _ _ _ _ Hx Hy Hlt) as Hal.
    split.
    + destruct (Z.pos my * 2 ^ (ey - Z.min ey ex) - Z.pos mx * 2 ^ (ex - Z.min ey ex)) eqn:Hd;
        try lia. cbn [binary_normalize]. apply binary_round_sign. lia.
    + destruct (Z.pos mx * 2 ^ (ex - Z.min ey ex) - Z.pos my * 2 ^ (ey - Z.min ey ex)) eqn:Hd;
        try lia. cbn [binary_normalize]. apply binary_round_sign. lia.
Qed.


Lemma SFltb_Lt x y : SFltb x y = true -> SFcompare x y = Some Lt.
Proof. unfold SFltb. by destruct (SFcompare x y) as [[]|]. Qed.

(** For [a < b], the difference [b - a] is positive and not zero: a zero
    divided by it is the zero. *)
Lemma float_zero_div_sub (a b : float) :
  (a <? b)%float = true -> (0 / (b - a))%float = 0%float.
Proof.
  rewrite FloatAxioms.ltb_spec. intros Hlt%SFltb_Lt.
  apply Prim2SF_inj. rewrite div_spec, sub_spec, Prim2SF_zero.
  destruct (SF64sub_sign _ _ (Prim2SF_valid a) (Prim2SF_valid b) Hlt)
    as [[(m & e & ->)| ->] _]; reflexivity.
Qed.

(** For [a < b], the difference [a - b] is negative. *)
Lemma float_sub_neg (a b : float) :
  (a <? b)%float = true -> (a - b <? 0)%float = true.
Proof.
  rewrite !FloatAxioms.ltb_spec. intros Hlt%SFltb_Lt.
  rewrite sub_spec, Prim2SF_zero.
  destruct (SF64sub_sign _ _ (Prim2SF_valid a) (Prim2SF_valid b) Hlt)
    as [_ [(m & e & ->)| ->]]; reflexivity.
Qed.

(** A number equal to zero (of either sign) is not greater than zero. *)
Lemma float_eqb_zero_not_pos (s : float) :
  (s =? 0)%float = true -> (0 <? s)%float = false.
Proof.
  rewrite FloatAxioms.eqb_spec, FloatAxioms.ltb_spec, Prim2SF_zero. unfold SFeqb, SFltb.
  by destruct (Prim2SF s) as [[]|[]| |[] m e].
Qed.

Lemma float_nan_sub (y : float) : (nan - y)%float = nan.
Proof. apply Prim2SF_inj. rewrite sub_spec. reflexivity. Qed.

Lemma float_sub_nan (y : float) : (y - nan)%float = nan.
Proof.
  apply Prim2SF_inj. rewrite sub_spec.
  change (Prim2SF nan) with S754_nan. by destruct (Prim2SF y).
Qed.


End float_facts.

(** ** Facts on index arrays *)

Section arrays.
Implicit Types (x pre : list float) (p : float -> bool).

Lemma map_np_ones (g : float -> float) x :
  map g (np_ones (length x)) = map (fun _ => g 1%float) x.
Proof. unfold np_ones. induction x as [|? x IH]; simpl; by f_equal. Qed.

Lemma zip_with_andb_map (p q : float -> bool) x :
  zip_with andb (map p x) (map q x) = map (fun v => p v && q v) x.
Proof. induction x as [|? x IH]; simpl; by f_equal. Qed.

(** Reading [x] at the indices that [find] returns selects the elements that
    satisfy the condition, in order. *)
Lemma take_indices_find_from pre x p :
  take_indices (pre ++ x) (find_from (length pre) (map p x)) = Ok (List.filter p x).
Proof.
  revert pre. induction x as [|v x IH]; intros pre; [done|].
  assert (take_indices (pre ++ v :: x) (find_from (S (length pre)) (map p x))
          = Ok (List.filter p x)) as Hrest.
  { specialize (IH (pre ++ [v])). rewrite <- app_assoc, length_app in IH.
    simpl in IH. by rewrite Nat.add_1_r in IH. }
  simpl. destruct (p v); simpl; [|done].
  rewrite list_lookup_middle by done. by rewrite Hrest.
Qed.

(** Writing [f] of the selected elements at the indices that [find] returns,
    over a default [d], is an elementwise choice. *)
Lemma put_indices_find_from pre x p (f : float -> float) (d : float) :
  put_indices (pre ++ map (fun _ => d) x) (find_from (length pre) (map p x))
    (map f (List.filter p x))
  = Ok (pre ++ map (fun v => if p v then f v else d) x).
Proof.
  revert pre. induction x as [|v x IH]; intros pre; [done|].
  simpl. destruct (p v) eqn:Hp; simpl.
  - rewrite decide_True by (rewrite length_app; simpl; lia).
    replace (<[length pre := f v]> (pre ++ d :: map (fun _ => d) x))
      with ((pre ++ [f v]) ++ map (fun _ => d) x).
    + specialize (IH (pre ++ [f v])). rewrite length_app in IH. simpl in IH.
      rewrite Nat.add_1_r in IH. by rewrite IH, <- app_assoc.
    + rewrite <- app_assoc. simpl.
      rewrite insert_app_r_alt, Nat.sub_diag by done. done.
  - specialize (IH (pre ++ [d])). rewrite length_app in IH. simpl in IH.
    rewrite Nat.add_1_r, <- !app_assoc in IH. done.
Qed.

Lemma put_scalar_find_from pre x p (v d : float) :
  put_scalar (pre ++ map (fun _ => d) x) (find_from (length pre) (map p x)) v
  = Ok (pre ++ map (fun w => if p w then v else d) x).
Proof.
  revert pre. induction x as [|w x IH]; intros pre; [done|].
  simpl. destruct (p w) eqn:Hp; simpl.
  - rewrite decide_True by (rewrite length_app; simpl; lia).
    replace (<[length pre := v]> (pre ++ d :: map (fun _ => d) x))
      with ((pre ++ [v]) ++ map (fun _ => d) x).
    + specialize (IH (pre ++ [v])). rewrite length_app in IH. simpl in IH.
      rewrite Nat.add_1_r in IH. by rewrite IH, <- app_assoc.
    + rewrite <- app_assoc. simpl.
      rewrite insert_app_r_alt, Nat.sub_diag by done. done.
  - specialize (IH (pre ++ [d])). rewrite length_app in IH. simpl in IH.
    rewrite Nat.add_1_r, <- !app_assoc in IH. done.
Qed.

Lemma take_indices_find x p :
  take_indices x (find (map p x)) = Ok (List.filter p x).
Proof. apply (take_indices_find_from [] x p). Qed.

Lemma put_indices_find x p (f : float -> float) (d : float) :
  put_indices (map (fun _ => d) x) (find (map p x)) (map f (List.filter p x))
  = Ok (map (fun v => if p v then f v else d) x).
Proof. apply (put_indices_find_from [] x p f d). Qed.

Lemma put_scalar_find x p (v d : float) :
  put_scalar (map (fun _ => d) x) (find (map p x)) v
  = Ok (map (fun w => if p w then v else d) x).
Proof. apply (put_scalar_find_from [] x p v d). Qed.

End arrays.

(** ** Log-normal: the vector path, element by element *)

Section lognormal_facts.
Context {N : Numerics}.

(** [sigma ** 2] raises nothing but the overflow error. *)
Lemma float_pow_2_raises (x : float) (e : exn) :
  float_pow_2 x = Raise e -> e = OverflowError.
Proof.
  unfold float_pow_2.
  repeat (match goal with |- context [if ?c then _ else _] => destruct c end);
    intros Heq; by simplify_eq.
Qed.


(** At or below the threshold the scalar path does not evaluate
    [sigma ** 2]. *)
Lemma lognormal_logpdf_scalar_small (mu sigma x : float) :
  (0 <? sigma)%float = true ->
  (threshold <? x)%float = false ->
  lognormal.logpdf (Scalar x) mu sigma = Ok (NpFloat (lognormal.small mu sigma)).
Proof. intros Hs Hx. unfold lognormal.logpdf. by rewrite Hs, Hx. Qed.

Lemma lognormal_logpdf_vector_pos (mu sigma sigma2 : float) (x : list float) :
  (0 <? sigma)%float = true ->
  float_pow_2 sigma = Ok sigma2 ->
  lognormal.logpdf (Vector x) mu sigma
  = Ok (NdArray (map (lognormal_pointwise mu sigma sigma2) x)).
Proof.
  intros Hs Hp. unfold lognormal.logpdf. rewrite Hs.
  rewrite take_indices_find. simpl. rewrite Hp. simpl.
  rewrite map_np_ones, float_mul_one, map_map.
  rewrite (put_indices_find x (fun v => threshold <? v)%float
             (fun v => lognormal.precise mu sigma sigma2 (np_log v))).
  done.
Qed.

(** The vector path evaluates [sigma ** 2] whatever the elements of [x]
    are. *)
Lemma lognormal_logpdf_vector_raises (mu sigma : float) (x : list float) (e : exn) :
  (0 <? sigma)%float = true ->
  float_pow_2 sigma = Raise e ->
  lognormal.logpdf (Vector x) mu sigma = Raise e.
Proof.
  intros Hs Hp. unfold lognormal.logpdf. rewrite Hs.
  rewrite take_indices_find. simpl. by rewrite Hp.
Qed.

Lemma lognormal_logpdf_vector_degenerate (mu sigma : float) (x : list float) :
  (0 <? sigma)%float = false ->
  lognormal.logpdf (Vector x) mu sigma
  = Ok (NdArray (map (fun v => if (v =? mu)%float then 0%float else neg_infinity) x)).
Proof.
  intros Hs. unfold lognormal.logpdf. rewrite Hs.
  rewrite map_np_ones.
  change (- infinity * 1)%float with neg_infinity.
  rewrite (put_scalar_find x (fun v => v =? mu)%float). done.
Qed.

End lognormal_facts.

(** * The claims *)

(** ** Gamma and exponential *)

Section gamma_exponential.
Context {N : Numerics}.

(** C9.  With a rate [beta] equal to zero, [gamma.logpdf(x, alpha, beta)] and
    [exponential.logpdf(x, beta)] fail with the assertion error "Beta is
    zero", for every [x] and [alpha]: no log-density is computed. *)
Theorem logpdf_beta_zero_fails (x : sample) (alpha beta : float) :
  (beta =? 0)%float = true ->
  gamma.logpdf x alpha beta = Raise (AssertionError "Beta is zero")
  /\ exponential.logpdf x beta = Raise (AssertionError "Beta is zero").
Proof.
  intros Hb%float_eqb_zero_not_pos.
  unfold gamma.logpdf, exponential.logpdf. by rewrite Hb.
Qed.

(** C10.  [gamma.cdf] checks nothing on [beta]: for every [x], [alpha] and
    [beta] it returns the regularized lower incomplete gamma function at
    [(alpha, x * beta)], as a [numpy.float64] for a scalar and, for a vector,
    as an array of the same length that holds at each index the function at
    that element; where [beta > 0] does not hold, [gamma.logpdf] fails on its
    assertion while [gamma.cdf] returns. *)
Theorem gamma_cdf_no_beta_check (alpha beta : float) :
  (forall x : float,
     gamma.cdf (Scalar x) alpha beta
     = Ok (NpFloat (special_gammainc alpha (x * beta)%float)))
  /\ (forall x : list float,
        exists r : list float,
          gamma.cdf (Vector x) alpha beta = Ok (NdArray r)
          /\ length r = length x
          /\ forall (i : nat) (v : float),
               x !! i = Some v ->
               r !! i = Some (special_gammainc alpha (v * beta)%float))
  /\ ((0 <? beta)%float = false ->
      forall x : sample,
        gamma.logpdf x alpha beta = Raise (AssertionError "Beta is zero")
        /\ exists r, gamma.cdf x alpha beta = Ok r).
Proof.
  split; [done|]. split.
  - intros x. eexists. split; [done|]. split; [by rewrite length_map|].
    intros i v Hi. by rewrite list_lookup_fmap, Hi.
  - intros Hb x. unfold gamma.logpdf. rewrite Hb. eauto.
Qed.

End gamma_exponential.

Lemma logpdf_beta_zero_fails_witness :
  (0 =? 0)%float = true
  /\ gamma.logpdf (N := stand_in) (Scalar 1) 2 0 = Raise (AssertionError "Beta is zero")
  /\ exponential.logpdf (N := stand_in) (Vector [1; 2]%float) 0
     = Raise (AssertionError "Beta is zero").
Proof.
  split; [reflexivity|].
  split.
  - apply (logpdf_beta_zero_fails (N := stand_in) (Scalar 1) 2 0). reflexivity.
  - apply (logpdf_beta_zero_fails (N := stand_in) (Vector [1; 2]%float) 2 0). reflexivity.
Defined.

Lemma gamma_cdf_no_beta_check_witness :
  (0 <? -1)%float = false
  /\ gamma.logpdf (N := stand_in) (Scalar 1) 2 (-1) = Raise (AssertionError "Beta is zero")
  /\ exists r, gamma.cdf (N := stand_in) (Scalar 1) 2 (-1) = Ok r.
Proof.
  split; [reflexivity|].
  destruct (gamma_cdf_no_beta_check (N := stand_in) 2 (-1)) as (_ & _ & Hcontrast).
  apply (Hcontrast eq_refl (Scalar 1)).
Defined.

(** ** Uniform *)

(** C8.  For [a < b], [uniform.pdf(x, a, b)] is [1 / (b - a)] where
    [a <= x <= b] and [0] elsewhere, for a scalar and elementwise for a
    vector; and [uniform.pdf([-1, 0.5, 2], 0, 1)] is [[0, 1, 0]]. *)
Theorem uniform_pdf_indicator (a b : float) :
  (a <? b)%float = true ->
  (forall x : float,
     uniform.pdf (Scalar x) a b
     = Ok (NpFloat (if (a <=? x)%float && (x <=? b)%float then (1 / (b - a))%float
                    else 0%float)))
  /\ (forall x : list float,
        uniform.pdf (Vector x) a b
        = Ok (NdArray (map (fun v => if (a <=? v)%float && (v <=? b)%float
                                     then (1 / (b - a))%float else 0%float) x)))
  /\ uniform.pdf (Vector [-1; 0.5; 2]%float) 0 1 = Ok (NdArray [0; 1; 0]%float).
Proof.
  intros Hab. pose proof (float_zero_div_sub a b Hab) as Hz.
  split; [|split].
  - intros x. unfold uniform.pdf. simpl.
    destruct ((a <=? x)%float && (x <=? b)%float); simpl; by rewrite ?Hz.
  - intros x. unfold uniform.pdf. simpl.
    rewrite decide_True by (by rewrite !length_map). simpl.
    rewrite zip_with_andb_map, map_map. do 2 f_equal.
    apply map_ext. intros v.
    destruct ((a <=? v)%float && (v <=? b)%float); simpl; by rewrite ?Hz.
  - reflexivity.
Qed.

Lemma uniform_pdf_indicator_witness :
  (0 <? 4)%float = true
  /\ uniform.pdf (Vector [-1; 0; 3; 4; 5]%float) 0 4
     = Ok (NdArray [0; 0.25; 0.25; 0.25; 0]%float).
Proof.
  split; [reflexivity|].
  destruct (uniform_pdf_indicator 0 4 eq_refl) as (_ & Hvec & _).
  rewrite Hvec. reflexivity.
Defined.

(** ** Log-normal *)

Section lognormal_claims.
Context {N : Numerics}.


(** C7.  With [sigma] equal to zero, [lognormal.logpdf] is [0] where
    [x == mu] (the comparison is with [mu] itself, not with [exp(mu)]) and
    minus infinity elsewhere, in the scalar path and, elementwise, in the
    vector path. *)
Theorem lognormal_logpdf_degenerate (mu sigma : float) :
  (sigma =? 0)%float = true ->
  (forall x : float,
     lognormal.logpdf (Scalar x) mu sigma
     = Ok (if (x =? mu)%float then PyInt 0 else PyFloat neg_infinity))
  /\ (forall x : list float,
        lognormal.logpdf (Vector x) mu sigma
        = Ok (NdArray (map (fun v => if (v =? mu)%float then 0%float
                                     else neg_infinity) x))).
Proof.
  intros Hs%float_eqb_zero_not_pos. split.
  - intros x. unfold lognormal.logpdf. rewrite Hs.
    by destruct (x =? mu)%float.
  - intros x. by apply lognormal_logpdf_vector_degenerate.
Qed.

End lognormal_claims.



Lemma lognormal_logpdf_degenerate_witness :
  (0 =? 0)%float = true
  /\ lognormal.logpdf (N := stand_in) (Scalar 1.5) 1.5 0 = Ok (PyInt 0)
  /\ lognormal.logpdf (N := stand_in) (Vector [1; 1.5; 2]%float) 1.5 0
     = Ok (NdArray [neg_infinity; 0%float; neg_infinity]).
Proof.
  split; [reflexivity|].
  destruct (lognormal_logpdf_degenerate (N := stand_in) 1.5 0 eq_refl) as [Hsc Hvec].
  split.
  - rewrite Hsc. reflexivity.
  - rewrite Hvec. reflexivity.
Defined.

(** ** Logit-normal *)

Section logitnormal_claims.
Context {N : Numerics}.

(** Outside the closed unit interval one of the two logarithms is of a
    negative number, and the NaN it gives goes through the subtractions. *)
Lemma logitnormal_pointwise_nan (mu sigma sigma2 x : float) :
  (x <? 0)%float = true \/ (1 <? x)%float = true ->
  logitnormal_pointwise mu sigma sigma2 x = nan.
Proof.
  unfold logitnormal_pointwise. intros [Hx|Hx].
  - rewrite (np_log_neg x Hx).
    change (- nan)%float with nan. by rewrite !float_nan_sub.
  - rewrite (np_log_neg (1 - x)%float (float_sub_neg 1 x Hx)).
    by rewrite float_sub_nan, !float_nan_sub.
Qed.

Lemma logitnormal_logpdf_returns (mu sigma sigma2 : float) (x : sample) :
  float_pow_2 sigma = Ok sigma2 ->
  logitnormal.logpdf x mu sigma = Ok (ufunc (logitnormal_pointwise mu sigma sigma2) x).
Proof. intros Hp. unfold logitnormal.logpdf. by rewrite Hp. Qed.

Lemma logitnormal_logpdf_scalar_nan (mu sigma sigma2 x : float) :
  float_pow_2 sigma = Ok sigma2 ->
  (x <? 0)%float = true \/ (1 <? x)%float = true ->
  logitnormal.logpdf (Scalar x) mu sigma = Ok (NpFloat nan).
Proof.
  intros Hp Hx. rewrite (logitnormal_logpdf_returns _ _ _ _ Hp). simpl.
  by rewrite (logitnormal_pointwise_nan mu sigma sigma2 x Hx).
Qed.

(** C4, as the code has it.  [logitnormal.logpdf] checks no domain, and no
    error that it raises depends on [x]: for every [x], [mu] and [sigma] the
    only error is the overflow error of [sigma ** 2], raised for every [x]
    alike.  When [sigma ** 2] does not overflow, it returns for every [x],
    also for [x <= 0] and [x >= 1], the value of its formula, a
    [numpy.float64] for a scalar and at each index of a vector that of the
    element; for [x < 0] and for [x > 1] that value is NaN. *)
Theorem logitnormal_logpdf_no_domain_check (mu sigma : float) :
  (forall (x : sample) (e : exn),
     logitnormal.logpdf x mu sigma = Raise e ->
     e = OverflowError /\ float_pow_2 sigma = Raise OverflowError
     /\ forall x' : sample, logitnormal.logpdf x' mu sigma = Raise OverflowError)
  /\ (forall sigma2 : float,
        float_pow_2 sigma = Ok sigma2 ->
        (forall x : float,
           logitnormal.logpdf (Scalar x) mu sigma
           = Ok (NpFloat (logitnormal_pointwise mu sigma sigma2 x)))
        /\ (forall x : list float,
              exists lp : list float,
                logitnormal.logpdf (Vector x) mu sigma = Ok (NdArray lp)
                /\ length lp = length x
                /\ forall (i : nat) (v : float),
                     x !! i = Some v ->
                     lp !! i = Some (logitnormal_pointwise mu sigma sigma2 v)
                     /\ ((v <? 0)%float = true \/ (1 <? v)%float = true ->
                         lp !! i = Some nan))
        /\ (forall x : float,
              (x <? 0)%float = true \/ (1 <? x)%float = true ->
              logitnormal.logpdf (Scalar x) mu sigma = Ok (NpFloat nan))).
Proof.
  split.
  - intros x e Hraise. unfold logitnormal.logpdf in Hraise.
    destruct (float_pow_2 sigma) as [sigma2|e'] eqn:Hp; [discriminate Hraise|].
    simpl in Hraise. injection Hraise as <-.
    pose proof (float_pow_2_raises _ _ Hp) as ->.
    split; [done|]. split; [done|].
    intros x'. unfold logitnormal.logpdf. by rewrite Hp.
  - intros sigma2 Hp. split; [|split].
    + intros x. by rewrite (logitnormal_logpdf_returns _ _ _ _ Hp).
    + intros x. eexists.
      split; [rewrite (logitnormal_logpdf_returns _ _ _ _ Hp); reflexivity|].
      split; [by rewrite length_map|].
      intros i v Hi. rewrite list_lookup_fmap, Hi. simpl. split; [done|].
      intros Hv. by rewrite (logitnormal_pointwise_nan mu sigma sigma2 v Hv).
    + intros x Hx. by apply (logitnormal_logpdf_scalar_nan mu sigma sigma2).
Qed.

End logitnormal_claims.

Lemma logitnormal_logpdf_no_domain_check_witness :
  float_pow_2 (N := stand_in) 1 = Ok 1%float
  /\ ((-1 <? 0)%float = true \/ (1 <? -1)%float = true)
  /\ logitnormal.logpdf (N := stand_in) (Scalar (-1)) 0 1 = Ok (NpFloat nan).
Proof.
  split; [reflexivity|]. split; [by left|].
  destruct (logitnormal_logpdf_no_domain_check (N := stand_in) 0 1) as [_ Hret].
  destruct (Hret 1%float eq_refl) as (_ & _ & Hnan).
  apply Hnan. by left.
Defined.

(** C4, as stated, fails: at [x = -1] and at [x = 2], outside [(0, 1)], with
    [mu = 0] and [sigma = 1], no error is raised and the result is NaN,
    whatever the provider of the logarithm. *)
Lemma logitnormal_logpdf_outside_domain_nan :
  (-1 <=? 0)%float = true /\ (1 <=? 2)%float = true
  /\ (forall N : Numerics,
        logitnormal.logpdf (Scalar (-1)) 0 1 = Ok (NpFloat nan)
        /\ logitnormal.logpdf (Scalar 2) 0 1 = Ok (NpFloat nan))
  /\ ~ (forall (N : Numerics) (x mu sigma : float),
          (x <=? 0)%float = true \/ (1 <=? x)%float = true ->
          exists e : exn, logitnormal.logpdf (Scalar x) mu sigma = Raise e).
Proof.
  split; [reflexivity|]. split; [reflexivity|]. split.
  - intros N. split.
    + apply (logitnormal_logpdf_scalar_nan 0 1 1); [reflexivity|by left].
    + apply (logitnormal_logpdf_scalar_nan 0 1 1); [reflexivity|by right].
  - intros Hclaim.
    destruct (Hclaim stand_in (-1)%float 0%float 1%float) as [e He]; [by left|].
    discriminate He.
Qed.

(** C5, as the code has it.  [logitnormal.rvs(mu, sigma)] returns [None]
    for every [mu] and [sigma]; it raises nothing. *)
Theorem logitnormal_rvs_returns_none (mu sigma : float) :
  logitnormal.rvs mu sigma = Ok VNone.
Proof. reflexivity. Qed.

(** C5, as stated, fails: [logitnormal.rvs(0, 1)] raises no error, so no
    "not implemented" signal either. *)
Lemma logitnormal_rvs_raises_nothing :
  logitnormal.rvs 0 1 = Ok VNone
  /\ ~ (exists e : exn, logitnormal.rvs 0 1 = Raise e).
Proof. split; [reflexivity|]. intros [e He]. discriminate He. Qed.

(** ** The generic posterior *)

Section generic_posterior_claims.
Context {N : Numerics}.

Lemma load_name_local (locals : gmap string value) (name : string) (v : value) (h : heap) :
  locals !! name = Some v -> load_name locals name h = (Ok v, h).
Proof. unfold load_name. by intros ->. Qed.

(** A name of the module resolves, whatever the locals. *)
Lemma load_name_global (locals : gmap string value) (name : string) (h : heap) :
  is_Some (module_globals !! name) -> exists v, load_name locals name h = (Ok v, h).
Proof.
  intros [g Hg]. unfold load_name.
  destruct (locals !! name) as [v|]; [by exists v|]. rewrite Hg. by exists g.
Qed.

(** [self] is no name of the module: unless it is a local, loading it
    raises. *)
Lemma load_name_self_unbound (locals : gmap string value) (h : heap) :
  locals !! "self" = None ->
  load_name locals "self" h = (Raise (NameError "self"), h).
Proof. unfold load_name. by intros ->. Qed.

(** The body of [__init__] up to the first use of [self]. *)
Lemma init_self_unbound (locals : gmap string value) (h : heap) :
  locals !! "self" = None ->
  generic_posterior.__init__ locals h = (Raise (NameError "self"), h).
Proof.
  intros Hself. unfold generic_posterior.__init__.
  destruct (load_name_global locals "quad" h) as [q Hq]; [by eexists|].
  unfold mbind, M_mbind, M_bind. rewrite Hq.
  by rewrite load_name_self_unbound.
Qed.

(** The body of [__init__] with [self] bound to an instance that has no
    [proportional_posterior] yet. *)
Lemma init_attribute_unset (locals : gmap string value) (h : heap) (l : nat) :
  locals !! "self" = Some (VRef l) ->
  h !! l ≫= (.!! "proportional_posterior") = None ->
  generic_posterior.__init__ locals h
  = (Raise (AttributeError "proportional_posterior"), h).
Proof.
  intros Hself Hattr. unfold generic_posterior.__init__.
  destruct (load_name_global locals "quad" h) as [q Hq]; [by eexists|].
  unfold mbind, M_mbind, M_bind. rewrite Hq.
  rewrite (load_name_local _ _ _ _ Hself).
  unfold getattr. by rewrite Hattr.
Qed.

(** The body of [__init__] when every statement runs: the value that [quad]
    returns is stored as it is. *)
Lemma init_runs (locals : gmap string value) (h : heap) (l : nat)
    (attrs : gmap string value) (f : float -> result float) (p : value)
    (v err : float) :
  locals !! "self" = Some (VRef l) ->
  locals !! "proportional_posterior" = Some p ->
  h !! l = Some attrs ->
  attrs !! "proportional_posterior" = Some (VFun f) ->
  quad f neg_infinity infinity = Ok (v, err) ->
  generic_posterior.__init__ locals h
  = (Ok VNone,
     <[l := <["proportional_posterior" := p]>
              (<["normalization" := VFloat v]> attrs)]> h).
Proof.
  intros Hself Hp Hl Hattr Hquad. unfold generic_posterior.__init__.
  destruct (load_name_global locals "quad" h) as [q Hq]; [by eexists|].
  destruct (load_name_global locals "np" h) as [np Hnp]; [by eexists|].
  unfold mbind, M_mbind, M_bind. rewrite Hq.
  rewrite (load_name_local _ _ _ _ Hself).
  unfold getattr at 1. rewrite Hl. simpl. rewrite Hattr.
  rewrite Hnp. simpl. rewrite Hnp. unfold M_lift.
  match goal with
  | |- context [quad f ?a ?b] => change (quad f a b) with (quad f neg_infinity infinity)
  end.
  rewrite Hquad.
  rewrite (load_name_local _ _ _ _ Hself).
  unfold setattr at 1. rewrite Hl.
  rewrite (load_name_local _ _ _ _ Hp), (load_name_local _ _ _ _ Hself).
  unfold setattr. rewrite lookup_insert_eq.
  rewrite insert_insert_eq. done.
Qed.

(** A call of [__init__] with any number of arguments other than one raises
    at the binding of the parameters. *)
Lemma call_init_arity (args : list value) (h : heap) :
  length args <> 1%nat ->
  call generic_posterior.__init___params generic_posterior.__init__ args h
  = (Raise (TypeError "wrong number of positional arguments"), h).
Proof. intros Hlen. unfold call. by rewrite decide_False. Qed.

(** A call of [__init__] with one argument binds it to
    [proportional_posterior]; [self] stays unbound. *)
Lemma call_init_one (a : value) (h : heap) :
  call generic_posterior.__init___params generic_posterior.__init__ [a] h
  = (Raise (NameError "self"), h).
Proof.
  unfold call. rewrite decide_True by done.
  apply init_self_unbound. simpl.
  rewrite lookup_insert_ne by done. apply lookup_empty.
Qed.

End generic_posterior_claims.

Section generic_posterior_theorems.
Context {N : Numerics}.

(** The call [generic_posterior(f)] passes two arguments to an [__init__] of
    one parameter. *)
Lemma instantiate_one_argument (f : value) (h : heap) :
  generic_posterior.instantiate [f] h
  = (Raise (TypeError "wrong number of positional arguments"),
     <[fresh (dom h) := ∅]> h).
Proof.
  unfold generic_posterior.instantiate.
  by rewrite call_init_arity by done.
Qed.

(** C1, at the code.  In every state in which the instance holds a function
    as [proportional_posterior] and a float as [normalization], and for every
    [x], [pdf] divides the function itself by the normalization, which is a
    type error: the function is never applied to [x], and the state is left
    as it was. *)
Theorem generic_posterior_pdf_divides_the_function
    (h : heap) (l : nat) (attrs : gmap string value)
    (f : float -> result float) (c : float) (x : value) :
  generic_posterior.pdf (VRef l) x
    (<[l := <["normalization" := VFloat c]>
             (<["proportional_posterior" := VFun f]> attrs)]> h)
  = (Raise (TypeError "unsupported operand type(s) for /"),
     <[l := <["normalization" := VFloat c]>
             (<["proportional_posterior" := VFun f]> attrs)]> h).
Proof.
  unfold generic_posterior.pdf, mbind, M_mbind, M_bind, getattr.
  rewrite lookup_insert_eq. simpl.
  rewrite lookup_insert_ne by done. rewrite lookup_insert_eq.
  rewrite lookup_insert_eq. simpl. by rewrite lookup_insert_eq.
Qed.

(** C2.  For every supplied function and every heap, the call
    [generic_posterior(f)] fails with a type error at the binding of the
    parameters of [__init__], which declares one parameter and receives the
    instance and [f]; the heap only gains the new instance, without
    attributes.  A call with any other number of arguments fails as well, so
    no construction completes.  And the body, run with [self] bound to a new
    instance, fails on reading [self.proportional_posterior], which is
    assigned only on the following line: no normalization is stored. *)
Theorem generic_posterior_construction_fails (f : value) (h : heap) :
  generic_posterior.instantiate [f] h
  = (Raise (TypeError "wrong number of positional arguments"),
     <[fresh (dom h) := ∅]> h)
  /\ (forall args : list value,
        exists e : exn,
          generic_posterior.instantiate args h = (Raise e, <[fresh (dom h) := ∅]> h))
  /\ (forall (l : nat) (locals : gmap string value),
        generic_posterior.__init__ (<["self" := VRef l]> locals) (<[l := ∅]> h)
        = (Raise (AttributeError "proportional_posterior"), <[l := ∅]> h)).
Proof.
  split; [apply instantiate_one_argument|]. split.
  - intros args. unfold generic_posterior.instantiate.
    destruct args as [|a args].
    + rewrite call_init_one. eauto.
    + rewrite call_init_arity by done. eauto.
  - intros l locals. apply (init_attribute_unset _ _ l).
    + apply lookup_insert_eq.
    + by rewrite lookup_insert_eq.
Qed.

(** C3, as the code has it.  [__init__] makes no check of the integral.
    When its statements run, with [self] bound to an instance that holds a
    function as [proportional_posterior], the value [v] that [quad] returns
    is stored as [normalization] as it is, whatever it is (zero, negative,
    infinite or NaN), the argument is stored as [proportional_posterior],
    and the body returns [None]: nothing is raised. *)
Theorem generic_posterior_init_stores_integral_unchecked
    (locals : gmap string value) (h : heap) (l : nat)
    (attrs : gmap string value) (f : float -> result float) (p : value)
    (v err : float) :
  locals !! "self" = Some (VRef l) ->
  locals !! "proportional_posterior" = Some p ->
  h !! l = Some attrs ->
  attrs !! "proportional_posterior" = Some (VFun f) ->
  quad f neg_infinity infinity = Ok (v, err) ->
  generic_posterior.__init__ locals h
  = (Ok VNone,
     <[l := <["proportional_posterior" := p]>
              (<["normalization" := VFloat v]> attrs)]> h).
Proof. apply init_runs. Qed.

End generic_posterior_theorems.

Lemma generic_posterior_init_stores_integral_unchecked_witness :
  generic_posterior.__init__ (N := stand_in)
    {[ "self" := VRef 0; "proportional_posterior" := VFun (fun _ => Ok 0%float) ]}
    {[ 0%nat := {[ "proportional_posterior" := VFun (fun _ => Ok 0%float) ]} ]}
  = (Ok VNone,
     <[0%nat := <["proportional_posterior" := VFun (fun _ => Ok 0%float)]>
                  (<["normalization" := VFloat nan]>
                     {[ "proportional_posterior" := VFun (fun _ => Ok 0%float) ]})]>
       {[ 0%nat := {[ "proportional_posterior" := VFun (fun _ => Ok 0%float) ]} ]})
  /\ invalid_normalization nan = true.
Proof.
  split; [|reflexivity].
  apply (generic_posterior_init_stores_integral_unchecked (N := stand_in)
           _ _ 0%nat {[ "proportional_posterior" := VFun (fun _ => Ok 0%float) ]}
           (fun _ => Ok 0%float) _ nan 0%float); reflexivity.
Defined.

(** C3, as stated, fails.  The constant function [1] has a divergent
    integral (the stand-in integrator returns infinity for it), and
    constructing a posterior from it fails, for every provider and heap, with
    the type error of the call, which is no normalization error: the same
    error is raised for every function, before [quad] is called. *)
Lemma generic_posterior_no_normalization_error :
  quad (Numerics := stand_in) (fun _ => Ok 1%float) neg_infinity infinity
  = Ok (infinity, 0%float)
  /\ invalid_normalization infinity = true
  /\ (forall (N : Numerics) (h : heap),
        generic_posterior.instantiate [VFun (fun _ => Ok 1%float)] h
        = (Raise (TypeError "wrong number of positional arguments"),
           <[fresh (dom h) := ∅]> h))
  /\ ~ (forall (N : Numerics) (f : float -> result float) (h : heap),
          (forall v err : float,
             quad f neg_infinity infinity = Ok (v, err) ->
             invalid_normalization v = true) ->
          exists e : exn,
            normalization_error e
            /\ (generic_posterior.instantiate [VFun f] h).1 = Raise e).
Proof.
  split; [reflexivity|]. split; [reflexivity|]. split.
  - intros N h. apply instantiate_one_argument.
  - intros Hclaim.
    destruct (Hclaim stand_in (fun _ => Ok 1%float) ∅) as (e & He & Hraise).
    + intros v err Hq. by injection Hq as <- <-.
    + rewrite instantiate_one_argument in Hraise. simpl in Hraise.
      injection Hraise as <-. exact He.
Qed.

(** C1, at a concrete state: the posterior holds [t -> t + 1] and the
    normalization [2]; at [x = 1] the specification gives [(1 + 1) / 2 = 1],
    and the code raises the type error. *)
Lemma generic_posterior_pdf_example :
  generic_posterior.pdf (VRef 0) (VFloat 1)
    {[ 0%nat := {[ "proportional_posterior" := VFun (fun t => Ok (t + 1)%float);
                   "normalization" := VFloat 2 ]} ]}
  = (Raise (TypeError "unsupported operand type(s) for /"),
     {[ 0%nat := {[ "proportional_posterior" := VFun (fun t => Ok (t + 1)%float);
                    "normalization" := VFloat 2 ]} ]})
  /\ ((1 + 1) / 2)%float = 1%float.
Proof. split; reflexivity. Qed.

(** * Further properties *)

(** ** More facts on binary64 arithmetic *)

Section more_float_facts.

(** A number that is at most zero is not greater than zero. *)
Lemma float_leb_zero_not_pos (s : float) :
  (s <=? 0)%float = true -> (0 <? s)%float = false.
Proof.
  rewrite FloatAxioms.leb_spec, FloatAxioms.ltb_spec, Prim2SF_zero.
  unfold SFleb, SFltb. by destruct (Prim2SF s) as [[]|[]| |[] m e].
Qed.

Lemma SFcompare_refl (x : spec_float) : x <> S754_nan -> SFcompare x x = Some Eq.
Proof.
  destruct x as [[]|[]| |[] m e]; intros Hx; try done; simpl;
    rewrite Z.compare_refl;
    change (Pos.compare_cont Eq m m) with (m ?= m)%positive;
    by rewrite Pos.compare_refl.
Qed.

(** Only the NaN differs from itself, and the NaN is not greater than
    zero. *)
Lemma float_nan_not_pos (s : float) :
  (s =? s)%float = false -> (0 <? s)%float = false.
Proof.
  rewrite FloatAxioms.eqb_spec, FloatAxioms.ltb_spec, Prim2SF_zero.
  unfold SFeqb, SFltb. intros Hs.
  destruct (Prim2SF s) as [sg|sg| |sg m e] eqn:Hp; [| |done|].
  all: by rewrite SFcompare_refl in Hs.
Qed.

End more_float_facts.

(** ** Log-normal, beyond the claims *)

Section lognormal_extras.
Context {N : Numerics}.

(** X1.  [lognormal.logpdf] takes its degenerate branch for every [sigma]
    that is not greater than zero, a negative and a NaN [sigma] included:
    it is then [0] where [x == mu] and minus infinity elsewhere, in the
    scalar and in the vector path, and no error is raised. *)
Theorem lognormal_logpdf_nonpositive_sigma (mu sigma : float) :
  (sigma <=? 0)%float = true \/ (sigma =? sigma)%float = false ->
  (forall x : float,
     lognormal.logpdf (Scalar x) mu sigma
     = Ok (if (x =? mu)%float then PyInt 0 else PyFloat neg_infinity))
  /\ (forall x : list float,
        lognormal.logpdf (Vector x) mu sigma
        = Ok (NdArray (map (fun v => if (v =? mu)%float then 0%float
                                     else neg_infinity) x))).
Proof.
  intros Hs.
  assert ((0 <? sigma)%float = false) as Hs'.
  { destruct Hs; [by apply float_leb_zero_not_pos|by apply float_nan_not_pos]. }
  split.
  - intros x. unfold lognormal.logpdf. rewrite Hs'. by destruct (x =? mu)%float.
  - intros x. by apply lognormal_logpdf_vector_degenerate.
Qed.

(** X2.  On a vector, the indices that [lognormal.logpdf] reads and writes
    are in range and the values match the indices in number, whatever [mu],
    [sigma] and [x]: the call either returns an array as long as [x], or, for
    a [sigma > 0] whose square overflows, fails with the overflow error of
    [sigma ** 2]; it raises no index error and no shape error. *)
Theorem lognormal_logpdf_vector_in_range (mu sigma : float) (x : list float) :
  (exists lp : list float,
     lognormal.logpdf (Vector x) mu sigma = Ok (NdArray lp)
     /\ length lp = length x)
  \/ ((0 <? sigma)%float = true
      /\ float_pow_2 sigma = Raise OverflowError
      /\ lognormal.logpdf (Vector x) mu sigma = Raise OverflowError).
Proof.
  destruct (0 <? sigma)%float eqn:Hs.
  - destruct (float_pow_2 sigma) as [sigma2|e] eqn:Hp.
    + left. eexists. split; [by apply (lognormal_logpdf_vector_pos _ _ sigma2)|].
      by rewrite length_map.
    + right. pose proof (float_pow_2_raises _ _ Hp) as ->.
      split; [done|]. split; [done|]. by apply lognormal_logpdf_vector_raises.
  - left. eexists. split; [by apply lognormal_logpdf_vector_degenerate|].
    by rewrite length_map.
Qed.

(** X3.  For [sigma > 0], every [x] that is not greater than the threshold
    [1e-6] gets one and the same value, which does not depend on [x]: a
    zero, a negative number and a NaN are not rejected and give the value of
    the threshold.  The scalar path does so for every such [sigma]; the
    vector path does so at the index of [x] when [sigma ** 2] does not
    overflow. *)
Theorem lognormal_logpdf_below_threshold (mu sigma : float) :
  (0 <? sigma)%float = true ->
  (forall v : float,
     (threshold <? v)%float = false ->
     lognormal.logpdf (Scalar v) mu sigma = Ok (NpFloat (lognormal.small mu sigma)))
  /\ (forall (sigma2 : float) (x : list float) (i : nat) (v : float),
        float_pow_2 sigma = Ok sigma2 ->
        x !! i = Some v ->
        (threshold <? v)%float = false ->
        exists lp : list float,
          lognormal.logpdf (Vector x) mu sigma = Ok (NdArray lp)
          /\ lp !! i = Some (lognormal.small mu sigma))
  /\ (threshold <? nan)%float = false
  /\ (threshold <? threshold)%float = false
  /\ (threshold <? -1)%float = false.
Proof.
  intros Hs. split; [|split; [|done]].
  - intros v Hv. by apply lognormal_logpdf_scalar_small.
  - intros sigma2 x i v Hp Hi Hv. eexists.
    split; [by apply (lognormal_logpdf_vector_pos _ _ sigma2)|].
    rewrite list_lookup_fmap, Hi. simpl.
    unfold lognormal_pointwise. by rewrite Hv.
Qed.

End lognormal_extras.

Lemma lognormal_logpdf_nonpositive_sigma_witness :
  ((-1 <=? 0)%float = true \/ (-1 =? -1)%float = false)
  /\ lognormal.logpdf (N := stand_in) (Vector [2; 3]%float) 3 (-1)
     = Ok (NdArray [neg_infinity; 0%float])
  /\ lognormal.logpdf (N := stand_in) (Scalar 3) 3 nan = Ok (PyInt 0).
Proof.
  split; [by left|]. split.
  - destruct (lognormal_logpdf_nonpositive_sigma (N := stand_in) 3 (-1)) as [_ Hvec];
      [by left|].
    rewrite Hvec. reflexivity.
  - destruct (lognormal_logpdf_nonpositive_sigma (N := stand_in) 3 nan) as [Hsc _];
      [by right|].
    rewrite Hsc. reflexivity.
Defined.

Lemma lognormal_logpdf_below_threshold_witness :
  (0 <? 1)%float = true
  /\ float_pow_2 (N := stand_in) 1 = Ok 1%float
  /\ lognormal.logpdf (N := stand_in) (Scalar nan) 0 1
     = Ok (NpFloat (lognormal.small (N := stand_in) 0 1))
  /\ exists lp : list float,
       lognormal.logpdf (N := stand_in) (Vector [2; -1]%float) 0 1 = Ok (NdArray lp)
       /\ lp !! 1%nat = Some (lognormal.small (N := stand_in) 0 1).
Proof.
  split; [reflexivity|]. split; [reflexivity|].
  destruct (lognormal_logpdf_below_threshold (N := stand_in) 0 1 eq_refl)
    as (Hsc & Hvec & _).
  split; [apply Hsc; reflexivity|].
  apply (Hvec 1%float [2; -1]%float 1%nat (-1)%float); reflexivity.
Defined.

(** ** Uniform, beyond the claims *)

Section uniform_float_facts.

Lemma Pos_compare_cont_Eq (m1 m2 : positive) :
  Pos.compare_cont Eq m1 m2 = Eq -> m1 = m2.
Proof.
  change (Pos.compare_cont Eq m1 m2) with (m1 ?= m2)%positive.
  apply Pos.compare_eq.
Qed.

(** The difference of two equal numbers is a zero, or the NaN when the two
    are the same infinity. *)
Lemma SF64sub_of_equal (x y : spec_float) :
  SFcompare x y = Some Eq ->
  (exists s, SF64sub y x = S754_zero s) \/ SF64sub y x = S754_nan.
Proof.
  destruct x as [sx|sx| |sx mx ex], y as [sy|sy| |sy my ey];
    cbn [SFcompare SF64sub SFsub]; intros Hc; try discriminate;
    try (destruct sx; discriminate); try (destruct sy; discriminate).
  - destruct sy, sx; eauto.
  - destruct sy, sx; try discriminate; eauto.
  - assert (ex = ey /\ mx = my) as [-> ->].
    { destruct sx, sy; try discriminate;
        destruct (Z.compare_spec ex ey); try discriminate;
        (split; [done|]); apply Pos_compare_cont_Eq;
        by destruct (Pos.compare_cont Eq mx my). }
    assert (sx = sy) as -> by (by destruct sx, sy).
    rewrite Z.min_id, Z.sub_diag. left. by exists false.
Qed.

Lemma float_sub_of_equal (a b : float) :
  (a =? b)%float = true ->
  (exists s, Prim2SF (b - a) = S754_zero s) \/ Prim2SF (b - a) = S754_nan.
Proof.
  rewrite FloatAxioms.eqb_spec. unfold SFeqb. intros Hc.
  rewrite sub_spec. apply SF64sub_of_equal.
  by destruct (SFcompare (Prim2SF a) (Prim2SF b)) as [[]|].
Qed.

(** A zero divided by a zero or by the NaN is the NaN. *)
Lemma float_zero_div_degenerate (d : float) :
  (exists s, Prim2SF d = S754_zero s) \/ Prim2SF d = S754_nan ->
  (0 / d)%float = nan.
Proof.
  intros Hd. apply Prim2SF_inj. rewrite div_spec, Prim2SF_zero.
  by destruct Hd as [[s ->]| ->].
Qed.

(** One divided by a zero is an infinity, and by the NaN the NaN. *)
Lemma float_one_div_degenerate (d : float) :
  (exists s, Prim2SF d = S754_zero s) \/ Prim2SF d = S754_nan ->
  (1 / d)%float = nan \/ (1 / d)%float = infinity \/ (1 / d)%float = neg_infinity.
Proof.
  intros Hd.
  assert (Prim2SF (1 / d) = S754_nan \/ Prim2SF (1 / d) = S754_infinity false
          \/ Prim2SF (1 / d) = S754_infinity true) as Hr.
  { rewrite div_spec, Prim2SF_one. destruct Hd as [[[] ->]| ->]; simpl; eauto. }
  destruct Hr as [Hr|[Hr|Hr]]; [left|right; left|right; right];
    by apply Prim2SF_inj.
Qed.

End uniform_float_facts.

Section uniform_extras.
Context {N : Numerics}.

(** X4.  [uniform.logpdf] is for a scalar only: on an array of two or more
    elements its chained comparison has no truth value and the call fails
    with a value error, for every [a] and [b], where [uniform.pdf] returns an
    array. *)
Theorem uniform_logpdf_rejects_vectors (x1 x2 : float) (x : list float) (a b : float) :
  uniform_logpdf (Vector (x1 :: x2 :: x)) a b
  = Raise (ValueError "The truth value of an array with more than one element is ambiguous")
  /\ exists r : list float,
       uniform.pdf (Vector (x1 :: x2 :: x)) a b = Ok (NdArray r)
       /\ length r = S (S (length x)).
Proof.
  split; [done|].
  unfold uniform.pdf. simpl.
  rewrite decide_True by (by rewrite !length_map). simpl.
  eexists. split; [done|]. simpl.
  by rewrite length_map, length_zip_with, !length_map, Nat.min_id.
Qed.

(** X5.  For [a < b] and a scalar [x], [uniform.logpdf] and [uniform.pdf]
    agree on the support: where [a <= x <= b] the one is [-log(b - a)] and
    the other [1 / (b - a)]; elsewhere, also for a NaN [x], the one is
    minus infinity and the other [0]. *)
Theorem uniform_logpdf_pdf_support (a b x : float) :
  (a <? b)%float = true ->
  if (a <=? x)%float && (x <=? b)%float
  then uniform_logpdf (Scalar x) a b = Ok (NpFloat (- np_log (b - a))%float)
       /\ uniform.pdf (Scalar x) a b = Ok (NpFloat (1 / (b - a))%float)
  else uniform_logpdf (Scalar x) a b = Ok (PyFloat neg_infinity)
       /\ uniform.pdf (Scalar x) a b = Ok (NpFloat 0%float).
Proof.
  intros Hab. unfold uniform_logpdf, uniform.pdf. simpl.
  destruct (a <=? x)%float; simpl; [destruct (x <=? b)%float; simpl|];
    by rewrite ?(float_zero_div_sub a b Hab).
Qed.

End uniform_extras.

(** X6.  [uniform.pdf] makes no check of its bounds.  With [a == b] it
    returns no density: the NaN where [a <= x <= b] does not hold, and an
    infinity or the NaN where it holds, for a scalar and, index by index, for
    a vector, whose result has the length of [x]. *)
Theorem uniform_pdf_equal_bounds (a b : float) :
  (a =? b)%float = true ->
  (forall x : float,
     exists r : float,
       uniform.pdf (Scalar x) a b = Ok (NpFloat r)
       /\ (r = nan \/ ((a <=? x)%float && (x <=? b)%float = true
                       /\ (r = infinity \/ r = neg_infinity))))
  /\ (forall x : list float,
        exists lp : list float,
          uniform.pdf (Vector x) a b = Ok (NdArray lp)
          /\ length lp = length x
          /\ forall (i : nat) (v : float),
               x !! i = Some v ->
               exists r : float,
                 lp !! i = Some r
                 /\ (r = nan \/ ((a <=? v)%float && (v <=? b)%float = true
                                 /\ (r = infinity \/ r = neg_infinity)))).
Proof.
  intros Hab. pose proof (float_sub_of_equal a b Hab) as Hd.
  pose proof (float_zero_div_degenerate _ Hd) as H0.
  pose proof (float_one_div_degenerate _ Hd) as H1.
  assert (forall v : float,
            let r := (float_of_bool ((a <=? v)%float && (v <=? b)%float) / (b - a))%float in
            r = nan \/ ((a <=? v)%float && (v <=? b)%float = true
                        /\ (r = infinity \/ r = neg_infinity))) as Hpoint.
  { intros v. simpl.
    destruct ((a <=? v)%float && (v <=? b)%float); simpl; [|by left].
    destruct H1 as [->|[->| ->]]; eauto. }
  split.
  - intros x. unfold uniform.pdf. simpl. eexists. split; [done|]. apply Hpoint.
  - intros x. unfold uniform.pdf. simpl.
    rewrite decide_True by (by rewrite !length_map). simpl.
    rewrite zip_with_andb_map, map_map.
    eexists. split; [done|]. split; [by rewrite length_map|].
    intros i v Hi. eexists. split; [by rewrite list_lookup_fmap, Hi|].
    apply Hpoint.
Qed.

Lemma uniform_logpdf_pdf_support_witness :
  (0 <? 4)%float = true
  /\ uniform_logpdf (N := stand_in) (Scalar 5) 0 4 = Ok (PyFloat neg_infinity)
  /\ uniform.pdf (Scalar 5) 0 4 = Ok (NpFloat 0%float).
Proof.
  split; [reflexivity|].
  apply (uniform_logpdf_pdf_support (N := stand_in) 0 4 5). reflexivity.
Defined.

Lemma uniform_pdf_equal_bounds_witness :
  (2 =? 2)%float = true
  /\ exists lp : list float,
       uniform.pdf (Vector [1; 2; 3]%float) 2 2 = Ok (NdArray lp)
       /\ length lp = 3%nat
       /\ forall (i : nat) (v : float),
            [1; 2; 3]%float !! i = Some v ->
            exists r : float,
              lp !! i = Some r
              /\ (r = nan \/ ((2 <=? v)%float && (v <=? 2)%float = true
                              /\ (r = infinity \/ r = neg_infinity))).
Proof.
  split; [reflexivity|].
  destruct (uniform_pdf_equal_bounds 2 2 eq_refl) as [_ Hvec].
  apply (Hvec [1; 2; 3]%float).
Defined.

(** ** The densities of the gamma and exponential families *)

(** X7.  [gamma.pdf] and [exponential.pdf] inherit the assertion of their
    [logpdf]: for every rate [beta] that is zero, negative or NaN they fail
    with the assertion error "Beta is zero", as the two [logpdf] do, and
    [np.exp] is not reached. *)
Theorem pdf_rejects_nonpositive_beta {N : Numerics} {E : NumpyExp}
    (x : sample) (alpha beta : float) :
  (beta <=? 0)%float = true \/ (beta =? beta)%float = false ->
  gamma_pdf x alpha beta = Raise (AssertionError "Beta is zero")
  /\ exponential_pdf x beta = Raise (AssertionError "Beta is zero")
  /\ gamma.logpdf x alpha beta = Raise (AssertionError "Beta is zero")
  /\ exponential.logpdf x beta = Raise (AssertionError "Beta is zero").
Proof.
  intros Hb.
  assert ((0 <? beta)%float = false) as Hb'.
  { destruct Hb; [by apply float_leb_zero_not_pos|by apply float_nan_not_pos]. }
  unfold gamma_pdf, exponential_pdf, gamma.logpdf, exponential.logpdf.
  by rewrite Hb'.
Qed.

Lemma pdf_rejects_nonpositive_beta_witness :
  ((-2 <=? 0)%float = true \/ (-2 =? -2)%float = false)
  /\ gamma_pdf (N := stand_in) (E := stand_in_exp) (Vector [1; 2]%float) 3 (-2)
     = Raise (AssertionError "Beta is zero")
  /\ exponential_pdf (N := stand_in) (E := stand_in_exp) (Vector [1; 2]%float) (-2)
     = Raise (AssertionError "Beta is zero")
  /\ gamma.logpdf (N := stand_in) (Vector [1; 2]%float) 3 (-2)
     = Raise (AssertionError "Beta is zero")
  /\ exponential.logpdf (N := stand_in) (Vector [1; 2]%float) (-2)
     = Raise (AssertionError "Beta is zero").
Proof.
  split; [by left|].
  apply (pdf_rejects_nonpositive_beta (N := stand_in) (E := stand_in_exp)).
  by left.
Defined.

(** ** The cumulative distribution of the generic posterior *)

Section cdf_extras.
Context {N : Numerics}.

Lemma pdf_heap (self x : value) (h : heap) : (generic_posterior.pdf self x h).2 = h.
Proof.
  unfold generic_posterior.pdf, mbind, M_mbind, M_bind, getattr, M_lift.
  destruct self; try done.
  destruct (h !! l ≫= lookup "proportional_posterior"); [|done].
  by destruct (h !! l ≫= lookup "normalization").
Qed.

Lemma cdf_at_heap (self : value) (i : float) (h : heap) : (cdf_at self i h).2 = h.
Proof. unfold cdf_at. by destruct (quad _ _ _). Qed.

Lemma cdf_each_heap (self : value) (x : list float) (h : heap) :
  (cdf_each self x h).2 = h.
Proof.
  induction x as [|i x IH]; [done|].
  simpl. unfold mbind, M_mbind, M_bind.
  pose proof (cdf_at_heap self i h) as Hi.
  destruct (cdf_at self i h) as [[v|e] h1]; simpl in Hi; subst h1; [|done].
  destruct (cdf_each self x h) as [[vs|e] h2]; simpl in IH; by subst h2.
Qed.

(** X8.  The queries are read-only: [pdf] and [cdf] leave the heap, and with
    it the cached normalization, as it was, whether they return or raise, for
    every instance, argument and provider. *)
Theorem generic_posterior_queries_read_only (self : value) (h : heap) :
  (forall x : value, (generic_posterior.pdf self x h).2 = h)
  /\ (forall x : sample, (generic_posterior_cdf self x h).2 = h).
Proof.
  split; [intros x; apply pdf_heap|].
  intros [x|x]; unfold generic_posterior_cdf, mbind, M_mbind, M_bind.
  - pose proof (cdf_at_heap self x h) as Hx.
    destruct (cdf_at self x h) as [[v|e] h1]; simpl in Hx; by subst h1.
  - pose proof (cdf_each_heap self x h) as Hx.
    destruct (cdf_each self x h) as [[v|e] h1]; simpl in Hx; by subst h1.
Qed.

Lemma cdf_scalar_inv (self : value) (i v : float) (h : heap) :
  generic_posterior_cdf self (Scalar i) h = (Ok (PyFloat v), h)
  <-> cdf_at self i h = (Ok v, h).
Proof.
  unfold generic_posterior_cdf, mbind, M_mbind, M_bind, mret, M_mret, M_ret.
  pose proof (cdf_at_heap self i h) as Hi.
  destruct (cdf_at self i h) as [[w|e] h1]; simpl in Hi; subst h1.
  - split; intros Heq; by simplify_eq/=.
  - split; intros Heq; by simplify_eq/=.
Qed.

Lemma cdf_each_Forall2 (self : value) (x vs : list float) (h : heap) :
  cdf_each self x h = (Ok vs, h)
  <-> Forall2 (fun i v => cdf_at self i h = (Ok v, h)) x vs.
Proof.
  revert vs. induction x as [|i x IH]; intros vs.
  - simpl. unfold mret, M_mret, M_ret. split.
    + intros Heq. simplify_eq/=. constructor.
    + intros Hall. by inversion Hall.
  - simpl. unfold mbind, M_mbind, M_bind, mret, M_mret, M_ret.
    pose proof (cdf_at_heap self i h) as Hi.
    pose proof (cdf_each_heap self x h) as Hx.
    destruct (cdf_at self i h) as [[v|e] h1] eqn:Hat; simpl in Hi; subst h1.
    + destruct (cdf_each self x h) as [[ws|e] h2] eqn:Hrest; simpl in Hx; subst h2.
      * split.
        -- intros Heq. simplify_eq/=. constructor; [done|]. by apply IH.
        -- intros Hall. inversion Hall as [|? w ? ws' Hw Hws]; subst.
           apply IH in Hws. rewrite ?Hat in Hw. rewrite ?Hrest in Hws.
           by simplify_eq/=.
      * split; [done|].
        intros Hall. inversion Hall as [|? w ? ws' Hw Hws]; subst.
        apply IH in Hws. rewrite ?Hrest in Hws. done.
    + split; [done|].
      intros Hall. inversion Hall as [|? w ? ws' Hw Hws]; subst.
      rewrite ?Hat in Hw. done.
Qed.

(** X9.  [cdf] on an array is [cdf] on each of its elements, in order, one
    integration for each: it returns the array [vs] exactly when, for every
    index, [cdf] on the element returns the float at that index of [vs]. *)
Theorem generic_posterior_cdf_elementwise (self : value) (x vs : list float) (h : heap) :
  generic_posterior_cdf self (Vector x) h = (Ok (NdArray vs), h)
  <-> Forall2 (fun i v => generic_posterior_cdf self (Scalar i) h = (Ok (PyFloat v), h))
        x vs.
Proof.
  assert (generic_posterior_cdf self (Vector x) h = (Ok (NdArray vs), h)
          <-> cdf_each self x h = (Ok vs, h)) as ->.
  { unfold generic_posterior_cdf, mbind, M_mbind, M_bind, mret, M_mret, M_ret.
    pose proof (cdf_each_heap self x h) as Hx.
    destruct (cdf_each self x h) as [[ws|e] h1]; simpl in Hx; subst h1;
      split; intros Heq; by simplify_eq/=. }
  rewrite cdf_each_Forall2.
  split; intros Hall; eapply Forall2_impl; try exact Hall;
    intros i v; apply cdf_scalar_inv.
Qed.

End cdf_extras.

Section cdf_failure.
Context {N : Numerics}.

(** In a state in which the instance holds a function and a float, the
    integrand [self.pdf] raises the type error at every point. *)
Lemma pdf_integrand_type_error (h : heap) (l : nat) (attrs : gmap string value)
    (f : float -> result float) (c : float) (t : float) :
  pdf_integrand (VRef l)
    (<[l := <["normalization" := VFloat c]>
             (<["proportional_posterior" := VFun f]> attrs)]> h) t
  = Raise (TypeError "unsupported operand type(s) for /").
Proof.
  unfold pdf_integrand, generic_posterior.pdf, mbind, M_mbind, M_bind, getattr.
  rewrite lookup_insert_eq. simpl.
  rewrite lookup_insert_ne by done. rewrite lookup_insert_eq.
  rewrite lookup_insert_eq. simpl. by rewrite lookup_insert_eq.
Qed.

(** X10.  With an integrator that lets the exception of its integrand
    through, as [quad] does, and in every state in which the instance holds a
    function as [proportional_posterior] and a float as [normalization],
    [cdf] fails with the type error of [pdf] on every scalar and on every
    array that is not empty; on the empty array it integrates nothing and
    returns the empty array. *)
Theorem generic_posterior_cdf_fails (h : heap) (l : nat) (attrs : gmap string value)
    (f : float -> result float) (c : float) :
  (forall (g : float -> result float) (a b : float) (e : exn),
     (forall t, g t = Raise e) -> quad g a b = Raise e) ->
  let h0 := <[l := <["normalization" := VFloat c]>
                    (<["proportional_posterior" := VFun f]> attrs)]> h in
  (forall x : float,
     generic_posterior_cdf (VRef l) (Scalar x) h0
     = (Raise (TypeError "unsupported operand type(s) for /"), h0))
  /\ (forall (x : float) (xs : list float),
        generic_posterior_cdf (VRef l) (Vector (x :: xs)) h0
        = (Raise (TypeError "unsupported operand type(s) for /"), h0))
  /\ generic_posterior_cdf (VRef l) (Vector []) h0 = (Ok (NdArray []), h0).
Proof.
  intros Hquad h0.
  assert (forall x, cdf_at (VRef l) x h0
                    = (Raise (TypeError "unsupported operand type(s) for /"), h0)) as Hat.
  { intros x. unfold cdf_at. rewrite (Hquad _ _ _ (TypeError "unsupported operand type(s) for /")); [done|].
    intros t. apply pdf_integrand_type_error. }
  split; [|split; [|done]].
  - intros x. unfold generic_posterior_cdf, mbind, M_mbind, M_bind. by rewrite Hat.
  - intros x xs. unfold generic_posterior_cdf. simpl.
    unfold mbind, M_mbind, M_bind. by rewrite Hat.
Qed.

End cdf_failure.

Lemma generic_posterior_cdf_fails_witness :
  (forall (g : float -> result float) (a b : float) (e : exn),
     (forall t, g t = Raise e) -> quad (Numerics := stand_in) g a b = Raise e)
  /\ generic_posterior_cdf (N := stand_in) (VRef 0) (Vector [-1; 0; 1]%float)
       (<[0%nat := <["normalization" := VFloat 2]>
                     (<["proportional_posterior" := VFun (fun t => Ok (t + 1)%float)]> ∅)]> ∅)
     = (Raise (TypeError "unsupported operand type(s) for /"),
        <[0%nat := <["normalization" := VFloat 2]>
                     (<["proportional_posterior" := VFun (fun t => Ok (t + 1)%float)]> ∅)]> ∅).
Proof.
  assert (forall (g : float -> result float) (a b : float) (e : exn),
            (forall t, g t = Raise e) -> quad (Numerics := stand_in) g a b = Raise e)
    as Hquad.
  { intros g a b e Hg. simpl. by rewrite Hg. }
  split; [exact Hquad|].
  apply (generic_posterior_cdf_fails (N := stand_in) ∅ 0%nat ∅
           (fun t => Ok (t + 1)%float) 2%float Hquad).
Defined.
